(** * ophyd-async: StandardDetector and PilatusController

    A shallow embedding of
      - [src/ophyd_async/core/detector.py]
        ([DetectorTrigger], [DetectorControl], [DetectorWriter],
        [StandardDetector]), and
      - [src/ophyd_async/epics/areadetector/controllers/pilatus_controller.py]
        ([TRIGGER_MODE], [PilatusController]).

    Python objects are modelled as follows.
      - [float] is IEEE binary64: Rocq's primitive [float].
      - [int] is [Z]; [str] is [string]; [Dict[str, X]] is [gmap string X].
      - An [Enum] class is built by [enum_new], which follows what the [enum]
        module of CPython 3.11 does with the class body
        ([_proto_member.__set_name__]): the value of a member of a plain
        [Enum] is a call of [object] on the items of the body value where
        that call succeeds, which it does for the body value [()] and for no
        other, and the body value otherwise;
        a name whose value equals the value of an earlier member becomes an
        alias of that member.
      - An [async def] body is a term of [coro]: a tree of awaits on the
        abstract coroutines of the collaborators ([DetectorControl],
        [DetectorWriter], the driver's signals), of [asyncio.gather] nodes and
        of reads and writes of the attributes of [self].  [run] executes such
        a term against an environment that answers every awaited operation
        with a value or an exception, that decides in which order the
        children of a [gather] complete, and which of them still complete
        between the first exception and the moment the awaiting body is
        resumed; it records the invocations and the completions in a
        trace. *)

From Stdlib Require Import ZArith Lia Bool.
From Stdlib Require Import Floats.PrimFloat.
From stdpp Require Import base option list strings gmap.

Set Warnings "-inexact-float,-register-all".
Set Default Proof Using "Type".
Local Open Scope string_scope.
Local Open Scope Z_scope.
Local Open Scope list_scope.

(** ** Python values and exceptions *)

Module Py.

(** The values that appear as [Enum] member values and in readings.
    [VObject id] is an instance of [object], known by its identity. *)
Inductive val : Type :=
| VNone
| VInt (n : Z)
| VStr (s : string)
| VFloat (x : float)
| VTuple (items : list val)
| VObject (id : nat).

(** [==] on values.  Floats compare with IEEE equality, tuples
    item by item, instances of [object] by identity. *)
Fixpoint val_eqb (a b : val) {struct a} : bool :=
  match a, b with
  | VNone, VNone => true
  | VInt n, VInt m => Z.eqb n m
  | VStr s, VStr t => String.eqb s t
  | VFloat x, VFloat y => PrimFloat.eqb x y
  | VObject i, VObject j => Nat.eqb i j
  | VTuple xs, VTuple ys =>
      (fix items_eqb (l : list val) (r : list val) {struct l} : bool :=
         match l, r with
         | [], [] => true
         | x :: l', y :: r' => val_eqb x y && items_eqb l' r'
         | _, _ => false
         end) xs ys
  | _, _ => false
  end.

(** The exceptions the modelled code can meet. *)
Inductive exn : Type :=
| TimeoutError
| CancelledError
| KeyError (key : string)
| RuntimeError (msg : string).

(** What a call gives back: it returns a value or raises. *)
Inductive outcome (A : Type) : Type :=
| Returned (a : A)
| Raised (e : exn).
Arguments Returned {A} a.
Arguments Raised {A} e.

(** *** [enum.Enum] *)

(** A member object.  Two members of one class are the same object exactly
    when they have the same [_name_]: one object is kept per canonical name,
    and [Enum] compares and hashes members by identity (the hash is taken
    from [_name_]). *)
Record member : Type := Member { _name_ : string; _value_ : val }.

(** [_member_map_]: every name of the class body, in definition order,
    with the member object it is bound to. *)
Definition enum_class : Type := list (string * member).

(** The canonical member that already carries value [v], if any. *)
Fixpoint canonical (mm : enum_class) (v : val) : option member :=
  match mm with
  | [] => None
  | (_, m) :: rest =>
      if val_eqb (_value_ m) v then Some m else canonical rest v
  end.

(** [_value_] of the member made for the class-body line [name = v] of a
    plain [Enum]: [args] is [v] itself when [v] is a tuple and [(v,)]
    otherwise; [_value_] is [object] called on the items of [args] when that
    call succeeds and [v] when it raises.  [object] takes no argument, so the call succeeds for
    [v = ()] alone, and then yields an object of its own, here the one with
    identity [fresh]. *)
Definition member_value (fresh : nat) (v : val) : val :=
  match v with
  | VTuple [] => VObject fresh
  | _ => v
  end.

(** One step of [_proto_member.__set_name__] for the class-body line
    [name = v]: the member's value is made; an earlier member with an equal
    value is reused (the name becomes an alias), otherwise the new member is
    kept.  The names bound so far number the objects made. *)
Definition enum_add (mm : enum_class) (name : string) (v : val)
  : enum_class :=
  let value := member_value (length mm) v in
  let m := match canonical mm value with
           | Some c => c
           | None => Member name value
           end in
  mm ++ [(name, m)].

Definition enum_new (body : list (string * val)) : enum_class :=
  fold_left (fun mm nv => enum_add mm (fst nv) (snd nv)) body [].

(** Attribute access [Cls.name]. *)
Fixpoint getattr (cls : enum_class) (name : string) : option member :=
  match cls with
  | [] => None
  | (n, m) :: rest => if String.eqb n name then Some m else getattr rest name
  end.

(** [list(Cls)]: the canonical members, aliases left out
    ([_member_names_]). *)
Definition members (cls : enum_class) : list member :=
  map snd
    (List.filter (fun nm => String.eqb (fst nm) (_name_ (snd nm))) cls).

(** [m1 is m2] / [m1 == m2] on members of one class. *)
Definition member_eqb (a b : member) : bool :=
  String.eqb (_name_ a) (_name_ b).

End Py.

Import Py.

(** ** detector.py: [DetectorTrigger] *)

(** [class DetectorTrigger(Enum)]: four names, each bound to [()]. *)
Definition DetectorTrigger_body : list (string * val) :=
  [ ("internal", VTuple []);
    ("edge_trigger", VTuple []);
    ("constant_gate", VTuple []);
    ("variable_gate", VTuple []) ].

Definition DetectorTrigger : enum_class := enum_new DetectorTrigger_body.

(** [DetectorTrigger.<name>] for a name of the class body. *)
Definition DetectorTrigger_attr (name : string) : member :=
  default (Member name VNone) (getattr DetectorTrigger name).

Definition internal : member := DetectorTrigger_attr "internal".
Definition edge_trigger : member := DetectorTrigger_attr "edge_trigger".
Definition constant_gate : member := DetectorTrigger_attr "constant_gate".
Definition variable_gate : member := DetectorTrigger_attr "variable_gate".

Arguments internal : simpl never.
Arguments edge_trigger : simpl never.
Arguments constant_gate : simpl never.
Arguments variable_gate : simpl never.

(** ** Coroutines, [await] and [asyncio.gather] *)

Module Coro.
Section Coro.

(** [op] are the awaitable operations of the collaborators, [res o] is the
    type of what awaiting [o] yields, [Self] holds the attributes of
    [self]. *)
Context {op : Type} {res : op -> Type} {Self : Type}.

(** The body of an [async def].
    - [Await o k]: [x = await o; k x], where [o] is invoked and then awaited.
    - [Gather os k]: [await asyncio.gather(o1, ..., on); k], the list of
      results being dropped.
    - [GetSelf]/[SetSelf]: reading and assigning the attributes of [self].
    An exception leaves the body: there is no [try] in the modelled code. *)
Inductive coro (R : Type) : Type :=
| Ret (r : R)
| Raise (e : exn)
| Await (o : op) (k : res o -> coro R)
| Gather (os : list op) (k : coro R)
| GetSelf (k : Self -> coro R)
| SetSelf (s : Self) (k : coro R).
Arguments Ret {R} r.
Arguments Raise {R} e.
Arguments Await {R} o k.
Arguments Gather {R} os k.
Arguments GetSelf {R} k.
Arguments SetSelf {R} s k.

(** Sequencing of two bodies: [x = await m; f x]. *)
Fixpoint bind {A B : Type} (m : coro A) (f : A -> coro B) : coro B :=
  match m with
  | Ret a => f a
  | Raise e => Raise e
  | Await o k => Await o (fun x => bind (k x) f)
  | Gather os k => Gather os (bind k f)
  | GetSelf k => GetSelf (fun s => bind (k s) f)
  | SetSelf s k => SetSelf s (bind k f)
  end.

(** [m] awaited [n] times in a row. *)
Fixpoint repeat_await (n : nat) (m : coro unit) : coro unit :=
  match n with
  | O => Ret tt
  | S n' => bind m (fun _ => repeat_await n' m)
  end.

(** What an observer of the collaborators sees: an operation is invoked
    (its coroutine object is created), later it completes, with a value
    ([Return]) or with an exception ([Throw]). *)
Inductive event : Type :=
| Call (o : op)
| Return (o : op) (x : res o)
| Throw (o : op) (e : exn).

(** The operations invoked along a trace, in order. *)
Definition calls (tr : list event) : list op :=
  omap (fun ev => match ev with Call o => Some o | _ => None end) tr.

(** The operations that completed without an exception, in order. *)
Definition returns (tr : list event) : list op :=
  omap (fun ev => match ev with Return o _ => Some o | _ => None end) tr.

(** The exceptions the operations completed with, in order. *)
Definition throws (tr : list event) : list (op * exn) :=
  omap (fun ev => match ev with Throw o e => Some (o, e) | _ => None end) tr.

(** The collaborators.  [answer o w] is what awaiting [o] gives in world
    [w], and the world afterwards; a time-out inside an operation is the
    exception [TimeoutError].  [next_done w os] is the position, among the
    gathered operations [os] still running, of the one that completes
    next.  [lingers w os] tells, once a child's exception has settled a
    [gather], whether one more of the children [os] still running completes
    before the awaiting body is resumed. *)
Record env (W : Type) : Type := Env {
  answer : forall o : op, W -> outcome (res o) * W;
  next_done : W -> list op -> nat;
  lingers : W -> list op -> bool
}.
Arguments answer {W} _ o _.
Arguments next_done {W} _ _ _.
Arguments lingers {W} _ _ _.

Inductive final (R : Type) : Type :=
| Finished (r : R)
| Failed (e : exn).
Arguments Finished {R} r.
Arguments Failed {R} e.

(** Where a run of a body ends.  [pending] are the children of a [gather]
    that were still running when the body was resumed with the exception of
    the [gather]: [asyncio.gather] does not cancel them and the body does
    not wait for them. *)
Record ending (W R : Type) : Type := End {
  trace : list event;
  result : final R;
  world : W;
  self : Self;
  pending : list op
}.
Arguments End {W R} _ _ _ _ _.
Arguments trace {W R} _.
Arguments result {W R} _.
Arguments world {W R} _.
Arguments self {W R} _.
Arguments pending {W R} _.

Definition after {W R} (tr : list event) (r : ending W R) : ending W R :=
  End (tr ++ trace r) (result r) (world r) (self r) (pending r).

(** The [i]-th running child and the others; the first one when [i] is
    out of range. *)
Definition pick (i : nat) (os : list op) : option (op * list op) :=
  match os !! i with
  | Some o => Some (o, delete i os)
  | None => match os with
            | [] => None
            | o :: rest => Some (o, rest)
            end
  end.

Section Run.

Context {W : Type} (E : env W).

(** A child's exception has settled the [gather]; the awaiting body is
    resumed a few turns of the event loop later.  In between, the children
    [os] still running go on: as long as [lingers] says so, one more of them
    completes, by returning or by raising, which changes nothing for the
    [gather].  The others are left running.  [n] bounds the number of
    completions and is the number of children still running. *)
Fixpoint linger (n : nat) (os : list op) (w : W)
  : list event * W * list op :=
  match n with
  | O => ([], w, os)
  | S n' =>
      if lingers E w os then
        match pick (next_done E w os) os with
        | None => ([], w, [])
        | Some (o, rest) =>
            match answer E o w with
            | (Raised e, w') =>
                let '(tr, w'', running) := linger n' rest w' in
                (Throw o e :: tr, w'', running)
            | (Returned x, w') =>
                let '(tr, w'', running) := linger n' rest w' in
                (Return o x :: tr, w'', running)
            end
        end
      else ([], w, os)
  end.

(** The children [os] of a [gather], all invoked, complete one after the
    other in the order [next_done] dictates.  The first exception is the
    exception of the [gather]; what the other children still do before the
    body is resumed is [linger].  [n] bounds the number of completions and
    is the number of children. *)
Fixpoint complete (n : nat) (os : list op) (w : W)
  : list event * option exn * W * list op :=
  match n with
  | O => ([], None, w, os)
  | S n' =>
      match pick (next_done E w os) os with
      | None => ([], None, w, [])
      | Some (o, rest) =>
          match answer E o w with
          | (Raised e, w') =>
              let '(tr, w'', running) := linger n' rest w' in
              (Throw o e :: tr, Some e, w'', running)
          | (Returned x, w') =>
              let '(tr, err, w'', running) := complete n' rest w' in
              (Return o x :: tr, err, w'', running)
          end
      end
  end.

(** One run of a body, from the world [w] and the attributes [s]. *)
Fixpoint run {R : Type} (c : coro R) (w : W) (s : Self) : ending W R :=
  match c with
  | Ret r => End [] (Finished r) w s []
  | Raise e => End [] (Failed e) w s []
  | Await o k =>
      match answer E o w with
      | (Returned x, w') => after [Call o; Return o x] (run (k x) w' s)
      | (Raised e, w') => End [Call o; Throw o e] (Failed e) w' s []
      end
  | Gather os k =>
      match complete (length os) os w with
      | (tr, None, w', _) => after (map Call os ++ tr) (run k w' s)
      | (tr, Some e, w', running) =>
          End (map Call os ++ tr) (Failed e) w' s running
      end
  | GetSelf k => run (k s) w s
  | SetSelf s' k => run k w s'
  end.

End Run.

End Coro.

Arguments coro : clear implicits.
Arguments env : clear implicits.
Arguments event : clear implicits.
Arguments ending : clear implicits.
Arguments Ret {op res Self R} r.
Arguments Raise {op res Self R} e.
Arguments Await {op res Self R} o k.
Arguments Gather {op res Self R} os k.
Arguments GetSelf {op res Self R} k.
Arguments SetSelf {op res Self R} s k.
Arguments Call {op res} o.
Arguments Return {op res} o x.
Arguments Throw {op res} o e.
Arguments Env {op res W} answer next_done lingers.
Arguments answer {op res W} _ o _.
Arguments next_done {op res W} _ _ _.
Arguments lingers {op res W} _ _ _.
Arguments Finished {R} r.
Arguments Failed {R} e.
Arguments End {op res Self W R} _ _ _ _ _.
Arguments trace {op res Self W R} _.
Arguments result {op res Self W R} _.
Arguments world {op res Self W R} _.
Arguments self {op res Self W R} _.
Arguments pending {op res Self W R} _.

End Coro.

Import Coro.

(** ** detector.py: [DetectorControl], [DetectorWriter], [StandardDetector] *)

(** [Descriptor] and [Reading] of [bluesky.protocols], with the fields the
    signals fill in. *)
Record Descriptor : Type := { source : string; dtype : string; shape : list Z }.
Record Reading : Type :=
  { value : val; timestamp : float; alarm_severity : Z }.

(** The attributes of a [StandardDetector] that its methods read or assign.
    [_control], [_data] and [_config_sigs] are bound once by [__init__] and
    are the collaborators the environment stands for. *)
Record StandardDetector : Type := {
  _describe : gmap string Descriptor;
  name : string
}.

Definition StandardDetector__init__ (name : string) : StandardDetector :=
  {| _describe := ∅; name := name |}.

(** [self._describe = d] *)
Definition set_describe (d : gmap string Descriptor) (s : StandardDetector)
  : StandardDetector :=
  {| _describe := d; name := name s |}.

Section Detector.

(** [AsyncStatus] (async_status.py) is only handed from [control.arm] to
    [await]: an opaque handle. *)
Context {AsyncStatus : Type}.

(** The abstract coroutines of [DetectorControl] ([control_*]) and of
    [DetectorWriter] ([data_*]) that [StandardDetector] awaits, and the
    awaiting of a status. *)
Inductive det_op : Type :=
| control_arm (trigger : member) (num : Z) (exposure : option float)
| control_disarm
| data_open (multiplier : Z)
| data_wait_for_index (index : Z)
| data_get_indices_written
| data_close
| await_status (st : AsyncStatus).

Definition det_res (o : det_op) : Type :=
  match o with
  | control_arm _ _ _ => AsyncStatus
  | control_disarm => unit
  | data_open _ => gmap string Descriptor
  | data_wait_for_index _ => unit
  | data_get_indices_written => Z
  | data_close => unit
  | await_status _ => unit
  end.

Definition is_control (o : det_op) : bool :=
  match o with
  | control_arm _ _ _ | control_disarm => true
  | _ => false
  end.

Definition is_open (o : det_op) : bool :=
  match o with data_open _ => true | _ => false end.

Definition method (R : Type) : Type := coro det_op det_res StandardDetector R.

Local Abbreviation Await := (@Await det_op det_res StandardDetector _).
Local Abbreviation Gather := (@Gather det_op det_res StandardDetector _).

(** [async def stage(self)] *)
Definition stage : method unit :=
  Gather [data_close; control_disarm]
    (Await (data_open 1) (fun d =>
     GetSelf (fun s =>
     SetSelf (set_describe d s)
     (Ret tt)))).

(** [def describe(self)] *)
Definition describe (s : StandardDetector)
  : outcome (gmap string Descriptor) :=
  Returned (_describe s).

(** [async def trigger(self)] *)
Definition trigger : method unit :=
  Await data_get_indices_written (fun indices_written =>
  Await (control_arm internal 1 None) (fun written_status =>
  Await (await_status written_status) (fun _ =>
  Await (data_wait_for_index (indices_written + 1)) (fun _ =>
  Ret tt)))).

(** [async def read(self)] *)
Definition read : method (gmap string Reading) := Ret ∅.

(** [async def unstage(self)] *)
Definition unstage : method unit :=
  Await data_close (fun _ => Ret tt).

End Detector.

Arguments det_op : clear implicits.
Arguments det_res : clear implicits.
Arguments method : clear implicits.

(** ** pilatus_controller.py: [TRIGGER_MODE], [PilatusController] *)

Module PilatusController.
Section Driver.

(** [TriggerMode] (drivers/pilatus_driver.py), [ImageMode] (utils.py) and
    [AsyncStatus] are declared in files that are not at hand; the member
    objects [TriggerMode.internal], [TriggerMode.ext_enable] and
    [ImageMode.multiple] are taken as given. *)
Context {TriggerMode ImageMode AsyncStatus : Type}.
Context (TriggerMode_internal TriggerMode_ext_enable : TriggerMode).
Context (ImageMode_multiple : ImageMode).

(** The key a [dict] files an [Enum] member under: members hash by their
    [_name_] and compare by identity, that is, by canonical name. *)
Definition key (m : member) : string := _name_ m.

(** The dict display [{k1: v1, k2: v2, k3: v3}] stores its items from left
    to right; storing under a key that is present replaces the value. *)
Definition TRIGGER_MODE : gmap string TriggerMode :=
  <[key variable_gate := TriggerMode_ext_enable]>
    (<[key constant_gate := TriggerMode_ext_enable]>
       (<[key internal := TriggerMode_internal]> ∅)).

(** What the controller awaits on its driver: [Signal.set] on three of the
    driver's signals, and the two helpers
    [arm_and_trigger_detector_and_check_status_pv(driver)] and
    [stop_busy_record(driver.acquire, value, timeout)]. *)
Inductive drv_op : Type :=
| trigger_mode_set (v : TriggerMode)
| num_images_set (v : Z)
| image_mode_set (v : ImageMode)
| arm_and_trigger_detector_and_check_status_pv
| stop_busy_record_acquire (v : bool) (timeout : Z).

Definition drv_res (o : drv_op) : Type :=
  match o with
  | arm_and_trigger_detector_and_check_status_pv => AsyncStatus
  | _ => unit
  end.

Definition sets_trigger_mode (o : drv_op) : option TriggerMode :=
  match o with trigger_mode_set v => Some v | _ => None end.

(** The controller holds its driver and nothing else. *)
Definition method (R : Type) : Type := coro drv_op drv_res unit R.

Local Abbreviation Await := (@Await drv_op drv_res unit _).
Local Abbreviation Gather := (@Gather drv_op drv_res unit _).

(** [def get_deadtime(self, exposure)]; [self] is not used. *)
Definition get_deadtime (exposure : float) : float := 0.001%float.

(** [async def arm(self, mode, num, exposure)].  The subscription
    [TRIGGER_MODE[mode]] is evaluated, and may raise [KeyError], while the
    arguments of [gather] are built, before any [set] is issued. *)
Definition arm (mode : member) (num : Z) (exposure : option float)
  : method AsyncStatus :=
  match TRIGGER_MODE !! key mode with
  | None => Raise (KeyError (key mode))
  | Some trigger_mode =>
      Gather [ trigger_mode_set trigger_mode;
               num_images_set num;
               image_mode_set ImageMode_multiple ]
        (Await arm_and_trigger_detector_and_check_status_pv (fun st =>
         Ret st))
  end.

(** [async def disarm(self)] *)
Definition disarm : method unit :=
  Await (stop_busy_record_acquire false 1) (fun _ => Ret tt).

End Driver.

Arguments drv_op : clear implicits.
Arguments drv_res : clear implicits.

End PilatusController.

(** ** Simulated collaborators

    Concrete environments on which the statements below are exercised. *)

Module Sim.

(** A writer that counts frames and a control that is armed or not. *)
Record state : Type := State {
  indices_written : Z;
  armed : bool;
  file_open : bool
}.

(** What goes wrong in a run, and which gathered child finishes first. *)
Record faults : Type := Faults {
  close_raises : bool;
  disarm_raises : bool;
  status_times_out : bool;
  frame_never_lands : bool;
  second_child_first : bool
}.

Definition no_faults : faults := Faults false false false false false.

Definition description : gmap string Descriptor :=
  {[ "det" := {| source := "sim://det"; dtype := "array"; shape := [20; 10] |} ]}.

Definition answer (f : faults) (o : det_op nat) (w : state)
  : outcome (det_res nat o) * state :=
  match o as o' return outcome (det_res nat o') * state with
  | control_arm _ _ _ =>
      (Returned 7%nat, State (indices_written w) true (file_open w))
  | control_disarm =>
      if disarm_raises f then (Raised (RuntimeError "disarm"), w)
      else (Returned tt, State (indices_written w) false (file_open w))
  | data_open _ => (Returned description, State 0 (armed w) true)
  | data_wait_for_index i =>
      if i <=? indices_written w then (Returned tt, w)
      else (Raised TimeoutError, w)
  | data_get_indices_written => (Returned (indices_written w), w)
  | data_close =>
      if close_raises f then (Raised (RuntimeError "close"), w)
      else (Returned tt, State (indices_written w) (armed w) false)
  | await_status _ =>
      if status_times_out f then (Raised TimeoutError, w)
      else if frame_never_lands f then (Returned tt, w)
      else (Returned tt, State (indices_written w + 1) (armed w) (file_open w))
  end.

(** In [environment f] a child still running when a [gather] is settled stays
    so until the body is resumed; in [lingering f] it completes before. *)
Definition environment (f : faults) : env (det_op nat) (det_res nat) state :=
  Env (answer f) (fun _ _ => if second_child_first f then 1%nat else 0%nat)
      (fun _ _ => false).

Definition lingering (f : faults) : env (det_op nat) (det_res nat) state :=
  Env (answer f) (fun _ _ => if second_child_first f then 1%nat else 0%nat)
      (fun _ _ => true).

Definition start : state := State 0 false false.

Definition det : StandardDetector := StandardDetector__init__ "det".

(** A Pilatus driver that remembers the last trigger mode written. *)
Inductive trigger_mode : Type := Internal | ExtEnable.

Definition drv_answer (o : PilatusController.drv_op trigger_mode unit)
  (w : option trigger_mode)
  : outcome (PilatusController.drv_res trigger_mode unit nat o)
    * option trigger_mode :=
  match o as o'
    return outcome (PilatusController.drv_res trigger_mode unit nat o')
           * option trigger_mode with
  | PilatusController.trigger_mode_set v => (Returned tt, Some v)
  | PilatusController.num_images_set _ => (Returned tt, w)
  | PilatusController.image_mode_set _ => (Returned tt, w)
  | PilatusController.arm_and_trigger_detector_and_check_status_pv =>
      (Returned 7%nat, w)
  | PilatusController.stop_busy_record_acquire _ _ => (Returned tt, w)
  end.

Definition driver
  : env (PilatusController.drv_op trigger_mode unit)
        (PilatusController.drv_res trigger_mode unit nat)
        (option trigger_mode) :=
  Env drv_answer (fun _ _ => 0%nat) (fun _ _ => false).

End Sim.

(** ** detector.py: [collect_asset_docs] and callers of the detector *)

Module Collect.
Section Collect.

(** [Asset] (bluesky.protocols) is a document; [Iterator] is the
    [AsyncIterator[Asset]] that the writer's [collect_stream_docs] hands
    out.  Both are opaque to the detector. *)
Context {Asset Iterator : Type}.

(** What the async generator [collect_asset_docs] does with its
    surroundings: it awaits the writer's [get_indices_written], calls the
    writer's [collect_stream_docs(indices_written)], steps the iterator
    ([__anext__], where [None] stands for [StopAsyncIteration]), and hands a
    document to its consumer ([yield doc], which returns when the consumer
    asks for the next document). *)
Inductive gen_op : Type :=
| writer_get_indices_written
| writer_collect_stream_docs (indices_written : Z)
| anext (it : Iterator)
| yield (doc : Asset).

Definition gen_res (o : gen_op) : Type :=
  match o with
  | writer_get_indices_written => Z
  | writer_collect_stream_docs _ => Iterator
  | anext _ => option Asset
  | yield _ => unit
  end.

Definition generator (R : Type) : Type := coro gen_op gen_res StandardDetector R.

Local Abbreviation Await := (@Await gen_op gen_res StandardDetector _).

(** [async for doc in it: yield doc].  The loop runs as long as the iterator
    delivers; [fuel] bounds the number of rounds that are unfolded, and
    [None] is returned when the bound is hit with the loop still going. *)
Fixpoint forward_docs (fuel : nat) (it : Iterator) : generator (option unit) :=
  match fuel with
  | O => Ret None
  | S fuel' =>
      Await (anext it) (fun nxt =>
      match nxt with
      | None => Ret (Some tt)
      | Some doc => Await (yield doc) (fun _ => forward_docs fuel' it)
      end)
  end.

(** [async def collect_asset_docs(self)] *)
Definition collect_asset_docs (fuel : nat) : generator (option unit) :=
  Await writer_get_indices_written (fun indices_written =>
  Await (writer_collect_stream_docs indices_written) (fun it =>
  forward_docs fuel it)).

(** The documents handed to the consumer along a trace, in order. *)
Definition yielded (tr : list (event gen_op gen_res)) : list Asset :=
  omap (fun ev => match ev with Call (yield doc) => Some doc | _ => None end) tr.

(** One round of the loop that delivers [doc]. *)
Definition round (it : Iterator) (doc : Asset) : list (event gen_op gen_res) :=
  [ Call (anext it); Return (anext it) (Some doc);
    Call (yield doc); Return (yield doc) tt ].

End Collect.

Arguments gen_op : clear implicits.
Arguments gen_res : clear implicits.
Arguments generator : clear implicits.

End Collect.

(** A caller of one detector: the methods it awaits, one after the other. *)
Inductive call : Type :=
| call_stage
| call_trigger
| call_read
| call_unstage.

Definition is_stage (c : call) : bool :=
  match c with call_stage => true | _ => false end.

Definition is_trigger (c : call) : bool :=
  match c with call_trigger => true | _ => false end.

Definition is_unstage (c : call) : bool :=
  match c with call_unstage => true | _ => false end.

Section Session.

Context {AsyncStatus : Type}.

(** [await det.stage()], [await det.trigger()], [await det.read()] (the
    mapping is dropped), [await det.unstage()]. *)
Definition invoke (c : call) : method AsyncStatus unit :=
  match c with
  | call_stage => stage
  | call_trigger => trigger
  | call_read => bind read (fun _ => Ret tt)
  | call_unstage => unstage
  end.

Definition is_disarm (o : det_op AsyncStatus) : bool :=
  match o with control_disarm => true | _ => false end.

Definition is_arm (o : det_op AsyncStatus) : bool :=
  match o with control_arm _ _ _ => true | _ => false end.

Definition is_close (o : det_op AsyncStatus) : bool :=
  match o with data_close => true | _ => false end.

(** The map an event shows [open] returning. *)
Definition opened (ev : event (det_op AsyncStatus) (det_res AsyncStatus))
  : option (gmap string Descriptor) :=
  match ev with
  | Return o x =>
      match o as o' return det_res AsyncStatus o' -> option (gmap string Descriptor) with
      | data_open _ => fun d => Some d
      | _ => fun _ => None
      end x
  | _ => None
  end.

(** Where a session ends: all that was observed, how each call ended, and
    the collaborators and the detector afterwards. *)
Record session_end (W : Type) : Type := SessionEnd {
  observed : list (event (det_op AsyncStatus) (det_res AsyncStatus));
  results : list (final unit);
  world_after : W;
  detector_after : StandardDetector
}.
Arguments SessionEnd {W} _ _ _ _.
Arguments observed {W} _.
Arguments results {W} _.
Arguments world_after {W} _.
Arguments detector_after {W} _.

(** The caller awaits each call to its end, notes how it ended and goes on
    with the next one, whether the call finished or failed. *)
Fixpoint session {W : Type}
    (E : env (det_op AsyncStatus) (det_res AsyncStatus) W)
    (cs : list call) (w : W) (det : StandardDetector) : session_end W :=
  match cs with
  | [] => SessionEnd [] [] w det
  | c :: cs' =>
      let r := run E (invoke c) w det in
      let rest := session E cs' (world r) (self r) in
      SessionEnd (trace r ++ observed rest) (result r :: results rest)
                 (world_after rest) (detector_after rest)
  end.

End Session.

Arguments session_end : clear implicits.
Arguments SessionEnd {AsyncStatus W} _ _ _ _.
Arguments observed {AsyncStatus W} _.
Arguments results {AsyncStatus W} _.
Arguments world_after {AsyncStatus W} _.
Arguments detector_after {AsyncStatus W} _.

(** ** [StandardDetector.trigger] with a [PilatusController] as control

    [PilatusController] is a [DetectorControl]: where [trigger] awaits
    [control.arm(...)], the body of [PilatusController.arm] runs on the
    driver, from its first line to its last, before [trigger] goes on.  The
    writer, the completion of a status and [disarm] (which [stage] awaits
    inside a [gather], overlapping [close]) stay with an environment of their
    own. *)

Section PilatusAsControl.

Context {TriggerMode ImageMode AsyncStatus Wd Ww : Type}.
Context (TriggerMode_internal TriggerMode_ext_enable : TriggerMode).
Context (ImageMode_multiple : ImageMode).

(** The driver with what the bodies of [arm] have asked of it so far, and
    the rest. *)
Record lab : Type := Lab {
  driver_world : Wd;
  arm_log : list (event (PilatusController.drv_op TriggerMode ImageMode)
                        (PilatusController.drv_res TriggerMode ImageMode
                                                   AsyncStatus));
  others_world : Ww
}.

Context (Edrv : env (PilatusController.drv_op TriggerMode ImageMode)
                    (PilatusController.drv_res TriggerMode ImageMode AsyncStatus)
                    Wd).
Context (others : env (det_op AsyncStatus) (det_res AsyncStatus) Ww).

(** Awaiting [control.arm(trigger, num, exposure)] to its end: the body runs
    on the driver; what it asks of the driver is appended to the log. *)
Definition through_arm (trigger : member) (num : Z) (exposure : option float)
    (w : lab) : outcome AsyncStatus * lab :=
  let r := run Edrv
             (PilatusController.arm TriggerMode_internal TriggerMode_ext_enable
                ImageMode_multiple trigger num exposure)
             (driver_world w) tt in
  (match result r with
   | Finished st => Returned st
   | Failed e => Raised e
   end,
   Lab (world r) (arm_log w ++ trace r) (others_world w)).

(** Awaiting any other operation. *)
Definition through_others (o : det_op AsyncStatus) (w : lab)
  : outcome (det_res AsyncStatus o) * lab :=
  (fst (answer others o (others_world w)),
   Lab (driver_world w) (arm_log w)
       (snd (answer others o (others_world w)))).

Definition answer_with_pilatus_arm (o : det_op AsyncStatus) (w : lab)
  : outcome (det_res AsyncStatus o) * lab :=
  match o as o' return outcome (det_res AsyncStatus o') * lab with
  | control_arm trigger num exposure => through_arm trigger num exposure w
  | control_disarm => through_others control_disarm w
  | data_open m => through_others (data_open m) w
  | data_wait_for_index i => through_others (data_wait_for_index i) w
  | data_get_indices_written => through_others data_get_indices_written w
  | data_close => through_others data_close w
  | await_status st => through_others (await_status st) w
  end.

Definition with_pilatus_arm
  : env (det_op AsyncStatus) (det_res AsyncStatus) lab :=
  Env answer_with_pilatus_arm
      (fun w os => next_done others (others_world w) os)
      (fun w os => lingers others (others_world w) os).

End PilatusAsControl.

Arguments lab : clear implicits.
Arguments Lab {TriggerMode ImageMode AsyncStatus Wd Ww} _ _ _.
Arguments driver_world {TriggerMode ImageMode AsyncStatus Wd Ww} _.
Arguments arm_log {TriggerMode ImageMode AsyncStatus Wd Ww} _.
Arguments others_world {TriggerMode ImageMode AsyncStatus Wd Ww} _.

(** A stream that delivers [docs] and then stops, and a consumer that takes
    every document: the generator's surroundings for the examples. *)
Module SimDocs.

Definition answer (o : Collect.gen_op string unit) (docs : list string)
  : outcome (Collect.gen_res string unit o) * list string :=
  match o as o' return outcome (Collect.gen_res string unit o') * list string with
  | Collect.writer_get_indices_written => (Returned (Z.of_nat (length docs)), docs)
  | Collect.writer_collect_stream_docs _ => (Returned tt, docs)
  | Collect.anext _ =>
      match docs with
      | [] => (Returned None, [])
      | d :: rest => (Returned (Some d), rest)
      end
  | Collect.yield _ => (Returned tt, docs)
  end.

Definition environment
  : env (Collect.gen_op string unit) (Collect.gen_res string unit) (list string) :=
  Env answer (fun _ _ => 0%nat) (fun _ _ => false).

End SimDocs.

(** * Properties *)

(** ** Runs of coroutines *)

Section RunFacts.

Context {op : Type} {res : op -> Type} {Self W : Type}.
Context (E : env op res W).

Implicit Types (w : W) (s : Self) (tr : list (event op res)).

Lemma after_nil {R} (r : ending op res Self W R) : after [] r = r.
Proof. by destruct r. Qed.

Lemma after_after {R} tr1 tr2 (r : ending op res Self W R) :
  after tr1 (after tr2 r) = after (tr1 ++ tr2) r.
Proof. unfold after; simpl. by rewrite app_assoc. Qed.

Lemma pick_single (i : nat) (a : op) : pick i [a] = Some (a, []).
Proof. by destruct i. Qed.

Lemma pick_pair (i : nat) (a b : op) :
  pick i [a; b] = Some (a, [b]) \/ pick i [a; b] = Some (b, [a]).
Proof. destruct i as [|[|i]]; cbn; auto. Qed.

Lemma calls_app tr1 tr2 : calls (tr1 ++ tr2) = calls tr1 ++ calls tr2.
Proof. apply omap_app. Qed.

Lemma calls_map_Call (os : list op) :
  calls (map (Call (res := res)) os) = os.
Proof. induction os as [|o os IH]; cbn; [done | by f_equal]. Qed.

(** Awaiting [m] and then [f]: the run of [m], and when it finished, the
    run of [f] from where [m] ended. *)
Lemma run_bind {A B} (m : coro op res Self A) (f : A -> coro op res Self B)
    w s :
  run E (bind m f) w s =
  match result (run E m w s) with
  | Finished a =>
      after (trace (run E m w s))
            (run E (f a) (world (run E m w s)) (self (run E m w s)))
  | Failed e =>
      End (trace (run E m w s)) (Failed e) (world (run E m w s))
          (self (run E m w s)) (pending (run E m w s))
  end.
Proof.
  revert w s.
  induction m as [a|e|o k IH|os k IH|k IH|s' k IH]; intros w s; cbn.
  - by rewrite after_nil.
  - done.
  - destruct (answer E o w) as [[x|e] w']; cbn; [|done].
    rewrite IH. destruct (result (run E (k x) w' s)); cbn; [|done].
    by rewrite after_after.
  - destruct (complete E (length os) os w) as [[[tr [e|]] w'] running];
      cbn; [done|].
    rewrite IH. destruct (result (run E k w' s)); cbn; [|done].
    by rewrite after_after.
  - apply IH.
  - apply IH.
Qed.

(** A [gather] of two.  [x] is the child that completes first and [y] the
    other one.  When [x] raises, [y] is left running, or completes before the
    body is resumed; when [x] returns, [y] completes. *)
Lemma complete_pair (a b : op) w :
  (exists x y, (x = a /\ y = b \/ x = b /\ y = a) /\
     complete E 2 [a; b] w =
     match answer E x w with
     | (Raised e, w1) =>
         if lingers E w1 [y] then
           match answer E y w1 with
           | (Raised e', w2) => ([Throw x e; Throw y e'], Some e, w2, [])
           | (Returned ry, w2) => ([Throw x e; Return y ry], Some e, w2, [])
           end
         else ([Throw x e], Some e, w1, [y])
     | (Returned rx, w1) =>
         match answer E y w1 with
         | (Raised e, w2) => ([Return x rx; Throw y e], Some e, w2, [])
         | (Returned ry, w2) => ([Return x rx; Return y ry], None, w2, [])
         end
     end).
Proof.
  assert (Hgo : forall x y, pick (next_done E w [a; b]) [a; b] = Some (x, [y]) ->
            complete E 2 [a; b] w =
            match answer E x w with
            | (Raised e, w1) =>
                if lingers E w1 [y] then
                  match answer E y w1 with
                  | (Raised e', w2) => ([Throw x e; Throw y e'], Some e, w2, [])
                  | (Returned ry, w2) => ([Throw x e; Return y ry], Some e, w2, [])
                  end
                else ([Throw x e], Some e, w1, [y])
            | (Returned rx, w1) =>
                match answer E y w1 with
                | (Raised e, w2) => ([Return x rx; Throw y e], Some e, w2, [])
                | (Returned ry, w2) => ([Return x rx; Return y ry], None, w2, [])
                end
            end).
  { intros x y Hp. cbn [complete]. rewrite Hp.
    destruct (answer E x w) as [[rx|e] w1].
    - rewrite pick_single. by destruct (answer E y w1) as [[ry|e] w2].
    - cbn [linger]. destruct (lingers E w1 [y]); [|done].
      rewrite pick_single. by destruct (answer E y w1) as [[ry|e'] w2]. }
  destruct (pick_pair (next_done E w [a; b]) a b) as [Hp|Hp].
  - exists a, b. split; [auto|]. by apply Hgo.
  - exists b, a. split; [auto|]. by apply Hgo.
Qed.

End RunFacts.

(** ** Runs of the methods of [StandardDetector] *)

Section DetectorFacts.

Context {AsyncStatus W : Type}.
Context (E : env (det_op AsyncStatus) (det_res AsyncStatus) W).

Implicit Types (w : W) (det : StandardDetector).

Local Abbreviation get := (@data_get_indices_written AsyncStatus).
Local Abbreviation arm1 := (@control_arm AsyncStatus internal 1 None).
Local Abbreviation close := (@data_close AsyncStatus).
Local Abbreviation disarm := (@control_disarm AsyncStatus).
Local Abbreviation open1 := (@data_open AsyncStatus 1).
Local Abbreviation await := (@await_status AsyncStatus).
Local Abbreviation wait_for := (@data_wait_for_index AsyncStatus).

(** [trigger] step by step: each await either raises, which ends the run
    there, or hands its value to the next line. *)
Lemma run_trigger w det :
  run E trigger w det =
  match answer E get w with
  | (Raised e, w1) => End [Call get; Throw get e] (Failed e) w1 det []
  | (Returned n, w1) =>
    match answer E arm1 w1 with
    | (Raised e, w2) =>
        End [Call get; Return get n; Call arm1; Throw arm1 e]
            (Failed e) w2 det []
    | (Returned st, w2) =>
      match answer E (await st) w2 with
      | (Raised e, w3) =>
          End [Call get; Return get n; Call arm1; Return arm1 st;
               Call (await st); Throw (await st) e]
              (Failed e) w3 det []
      | (Returned u, w3) =>
        match answer E (wait_for (n + 1)) w3 with
        | (Raised e, w4) =>
            End [Call get; Return get n; Call arm1; Return arm1 st;
                 Call (await st); Return (await st) u;
                 Call (wait_for (n + 1));
                 Throw (wait_for (n + 1)) e]
                (Failed e) w4 det []
        | (Returned v, w4) =>
            End [Call get; Return get n; Call arm1; Return arm1 st;
                 Call (await st); Return (await st) u;
                 Call (wait_for (n + 1));
                 Return (wait_for (n + 1)) v]
                (Finished tt) w4 det []
        end
      end
    end
  end.
Proof.
  unfold trigger; cbn [run].
  destruct (answer E get w) as [[n|e] w1]; [|reflexivity].
  destruct (answer E arm1 w1) as [[st|e] w2]; [|reflexivity].
  destruct (answer E (await st) w2) as [[u|e] w3]; [|reflexivity].
  destruct (answer E (wait_for (n + 1)) w3) as [[v|e] w4];
    reflexivity.
Qed.

(** [stage] step by step.  [x] is the gathered child that completes first
    and [y] the other one. *)
Lemma run_stage w det :
  exists x y : det_op AsyncStatus,
    (x = close /\ y = disarm \/ x = disarm /\ y = close) /\
    run E stage w det =
    match answer E x w with
    | (Raised e, w1) =>
        if lingers E w1 [y] then
          match answer E y w1 with
          | (Raised e', w2) =>
              End [Call close; Call disarm; Throw x e; Throw y e']
                  (Failed e) w2 det []
          | (Returned ry, w2) =>
              End [Call close; Call disarm; Throw x e; Return y ry]
                  (Failed e) w2 det []
          end
        else End [Call close; Call disarm; Throw x e] (Failed e) w1 det [y]
    | (Returned rx, w1) =>
      match answer E y w1 with
      | (Raised e, w2) =>
          End [Call close; Call disarm; Return x rx; Throw y e]
              (Failed e) w2 det []
      | (Returned ry, w2) =>
        match answer E open1 w2 with
        | (Raised e, w3) =>
            End [Call close; Call disarm; Return x rx; Return y ry;
                 Call open1; Throw open1 e]
                (Failed e) w3 det []
        | (Returned d, w3) =>
            End [Call close; Call disarm; Return x rx; Return y ry;
                 Call open1; Return open1 d]
                (Finished tt) w3 (set_describe d det) []
        end
      end
    end.
Proof.
  destruct (complete_pair E close disarm w) as (x & y & Hxy & Hc).
  exists x, y. split; [exact Hxy|].
  unfold stage. cbn [run length]. rewrite Hc. clear Hc.
  destruct (answer E x w) as [[rx|e] w1].
  - destruct (answer E y w1) as [[ry|e] w2]; [|reflexivity].
    cbn [app map run].
    destruct (answer E open1 w2) as [[d|e] w3]; reflexivity.
  - destruct (lingers E w1 [y]); [|reflexivity].
    destruct (answer E y w1) as [[ry|e'] w2]; reflexivity.
Qed.

Lemma run_unstage w det :
  run E unstage w det =
  match answer E close w with
  | (Raised e, w1) => End [Call close; Throw close e] (Failed e) w1 det []
  | (Returned u, w1) =>
      End [Call close; Return close u] (Finished tt) w1 det []
  end.
Proof.
  unfold unstage; cbn [run].
  destruct (answer E close w) as [[u|e] w1]; reflexivity.
Qed.

(** Whatever happens, [stage] begins by invoking [close] and [disarm]. *)
Lemma stage_calls w det :
  exists rest,
    calls (trace (run E stage w det)) =
    data_close :: control_disarm :: rest.
Proof.
  destruct (run_stage w det) as (x & y & _ & ->).
  destruct (answer E x w) as [[rx|e] w1].
  - destruct (answer E y w1) as [[ry|e] w2]; [|by eexists].
    destruct (answer E (data_open 1) w2) as [[d|e] w3]; by eexists.
  - destruct (lingers E w1 [y]); [|by eexists].
    destruct (answer E y w1) as [[ry|e'] w2]; by eexists.
Qed.

(** Once a [close] has returned and left the writer in a state where
    [close] returns again and changes nothing, any number of [unstage]
    calls in a row finish and stay in that state. *)
Lemma run_unstage_closed w det (n : nat) :
  answer E data_close w = (Returned tt, w) ->
  exists tr,
    run E (repeat_await n unstage) w det = End tr (Finished tt) w det []
    /\ calls tr = replicate n data_close.
Proof.
  intros Hw. induction n as [|n (tr & IH & Hc)].
  - by exists [].
  - exists ([Call data_close; Return data_close tt] ++ tr).
    cbn [repeat_await]. rewrite run_bind, run_unstage, Hw.
    cbn [result trace world self]. rewrite IH. split; [reflexivity|].
    rewrite calls_app, Hc. reflexivity.
Qed.

End DetectorFacts.

(** The cases of [run_stage], one goal each. *)
Ltac stage_cases E w det :=
  let x := fresh "x" in
  let y := fresh "y" in
  let Hxy := fresh "Hxy" in
  let Hrun := fresh "Hrun" in
  destruct (run_stage E w det) as (x & y & Hxy & Hrun);
  rewrite Hrun in *; clear Hrun;
  destruct Hxy as [[-> ->]|[-> ->]];
  repeat match goal with
         | |- context [answer E ?o ?w0] =>
             destruct (answer E o w0) as [[?|?] ?]
         | H : context [answer E ?o ?w0] |- _ =>
             destruct (answer E o w0) as [[?|?] ?]
         | |- context [lingers E ?w0 ?os] => destruct (lingers E w0 os)
         | H : context [lingers E ?w0 ?os] |- _ => destruct (lingers E w0 os)
         end.

(** ** The claims about [StandardDetector] *)

(** C1. [trigger] performs these steps, in this order, and nothing else: it
    reads [N] from the writer's [get_indices_written]; it calls
    [control.arm(DetectorTrigger.internal, num=1)] and awaits the status it
    is handed; only when that status has completed does it await the writer's
    [wait_for_index(N + 1)].  A step that raises ends the run at that step,
    so no later step is ever started before an earlier one has completed. *)
Theorem trigger_steps_in_order {AsyncStatus W : Type}
    (E : env (det_op AsyncStatus) (det_res AsyncStatus) W)
    (w : W) (det : StandardDetector) :
  let get := @data_get_indices_written AsyncStatus in
  let arm1 := @control_arm AsyncStatus internal 1 None in
  let await := @await_status AsyncStatus in
  let wait_for := @data_wait_for_index AsyncStatus in
  let r := run E trigger w det in
  (exists e,
      trace r = [Call get; Throw get e] /\ result r = Failed e)
  \/ (exists (N : Z) e,
      trace r = [Call get; Return get N; Call arm1; Throw arm1 e]
      /\ result r = Failed e)
  \/ (exists (N : Z) (st : AsyncStatus) e,
      trace r = [Call get; Return get N; Call arm1; Return arm1 st;
                 Call (await st); Throw (await st) e]
      /\ result r = Failed e)
  \/ (exists (N : Z) (st : AsyncStatus) e,
      trace r = [Call get; Return get N; Call arm1; Return arm1 st;
                 Call (await st); Return (await st) tt;
                 Call (wait_for (N + 1)); Throw (wait_for (N + 1)) e]
      /\ result r = Failed e)
  \/ (exists (N : Z) (st : AsyncStatus),
      trace r = [Call get; Return get N; Call arm1; Return arm1 st;
                 Call (await st); Return (await st) tt;
                 Call (wait_for (N + 1)); Return (wait_for (N + 1)) tt]
      /\ result r = Finished tt).
Proof.
  intros get arm1 await wait_for r. subst get arm1 await wait_for r.
  rewrite run_trigger.
  destruct (answer E data_get_indices_written w) as [[n|e] w1];
    [|left; by exists e].
  right.
  destruct (answer E (control_arm internal 1 None) w1) as [[st|e] w2];
    [|left; by exists n, e].
  right.
  destruct (answer E (@await_status AsyncStatus st) w2) as [[[]|e] w3];
    [|left; by exists n, st, e].
  right.
  destruct (answer E (data_wait_for_index (n + 1)) w3) as [[[]|e] w4].
  - right. by exists n, st.
  - left. by exists n, st, e.
Qed.

(** C5. When the wait on the arm status or the writer's [wait_for_index]
    raises inside [trigger], [trigger] fails with that very exception and
    does nothing after it: the only control operation of the whole run is
    the one [arm], [disarm] is never invoked, and no attribute of the detector
    changes.  The [disarm] the caller owes before a retry is the one a fresh
    [stage] always invokes. *)
Theorem trigger_failure_leaves_armed {AsyncStatus W : Type}
    (E : env (det_op AsyncStatus) (det_res AsyncStatus) W)
    (w : W) (det : StandardDetector) (o : det_op AsyncStatus) (e : exn) :
  let r := run E trigger w det in
  (exists st, o = await_status st) \/ (exists i, o = data_wait_for_index i) ->
  In (o, e) (throws (trace r)) ->
  result r = Failed e
  /\ last (trace r) = Some (Throw o e)
  /\ List.filter is_control (calls (trace r)) = [control_arm internal 1 None]
  /\ ~ In control_disarm (calls (trace r))
  /\ self r = det
  /\ pending r = []
  /\ (forall (W' : Type) (E' : env (det_op AsyncStatus) (det_res AsyncStatus) W')
        (w' : W') (det' : StandardDetector),
        In control_disarm (calls (trace (run E' stage w' det')))).
Proof.
  intros r Ho Hin. subst r. rewrite run_trigger in *.
  assert (Hstage : forall (W' : Type)
            (E' : env (det_op AsyncStatus) (det_res AsyncStatus) W')
            (w' : W') (det' : StandardDetector),
            In control_disarm (calls (trace (run E' stage w' det')))).
  { intros W' E' w' det'. destruct (stage_calls E' w' det') as (rest & ->).
    cbn. auto. }
  destruct (answer E data_get_indices_written w) as [[n|e0] w1].
  2: { cbn in Hin. destruct Hin as [[= <- <-]|[]].
       destruct Ho as [[st [=]]|[i [=]]]. }
  destruct (answer E (control_arm internal 1 None) w1) as [[st|e0] w2].
  2: { cbn in Hin. destruct Hin as [[= <- <-]|[]].
       destruct Ho as [[st [=]]|[i [=]]]. }
  destruct (answer E (@await_status AsyncStatus st) w2) as [[u|e0] w3].
  2: { cbn in Hin. destruct Hin as [[= <- <-]|[]].
       cbn. repeat split; auto. intros [[=]|[[=]|[[=]|[]]]]. }
  destruct (answer E (data_wait_for_index (n + 1)) w3) as [[v|e0] w4].
  { cbn in Hin. destruct Hin. }
  cbn in Hin. destruct Hin as [[= <- <-]|[]].
  cbn. repeat split; auto. intros [[=]|[[=]|[[=]|[[=]|[]]]]].
Qed.

(** C7. In every state of the detector and of its collaborators, [read]
    returns the empty mapping; it invokes no operation of the control or of
    the writer and changes nothing. *)
Theorem read_returns_empty {AsyncStatus W : Type}
    (E : env (det_op AsyncStatus) (det_res AsyncStatus) W)
    (w : W) (det : StandardDetector) :
  run E read w det = End [] (Finished ∅) w det [].
Proof. reflexivity. Qed.

(** C8. Let the writer's [close] be idempotent: after a [close] that
    returned, a further [close] returns and changes nothing.  Then [unstage]
    awaited any number of times in a row ends with the result, the
    collaborators' state and the detector that a single [unstage] ends with,
    so the repeats raise nothing.  [unstage] invokes the writer's [close] and
    nothing else (never the control) and assigns no attribute. *)
Theorem unstage_idempotent {AsyncStatus W : Type}
    (E : env (det_op AsyncStatus) (det_res AsyncStatus) W) :
  (forall w u w1,
      answer E data_close w = (Returned u, w1) ->
      answer E data_close w1 = (Returned tt, w1)) ->
  forall (n : nat) (w : W) (det : StandardDetector),
    let once := run E unstage w det in
    let many := run E (repeat_await (S n) unstage) w det in
    result many = result once
    /\ world many = world once
    /\ self many = self once
    /\ self once = det
    /\ calls (trace once) = [data_close]
    /\ (forall o, In o (calls (trace many)) -> o = data_close)
    /\ (result once = Finished tt ->
        calls (trace many) = replicate (S n) data_close).
Proof.
  intros Hidem n w det once many. subst once many.
  cbn [repeat_await]. rewrite run_bind, run_unstage.
  destruct (answer E data_close w) as [[u|e] w1] eqn:Hw;
    cbn [result trace world self pending].
  - destruct (run_unstage_closed E w1 det n (Hidem _ _ _ Hw))
      as (tr & Hr & Hc).
    rewrite Hr. unfold calls in *. cbn. repeat split; auto.
    + intros o [<-|Hin]; [done|]. rewrite Hc in Hin.
      apply list_elem_of_In, elem_of_replicate in Hin. tauto.
    + intros _. by rewrite Hc.
  - cbn. repeat split; auto.
    + intros o [<-|[]]. done.
    + intros [=].
Qed.


(** [locate H pre] finds where [pre] ends in [H : trace = pre ++ ev :: post],
    trying every position of the explicit [trace]. *)
Ltac locate H pre :=
  destruct pre as [|? pre]; cbn in H;
  [ try discriminate H; injection H as H ?
  | try discriminate H; injection H as ? H; subst; locate H pre ].

(** C3. [stage] invokes the writer's [close] and the control's [disarm]
    together, before either has completed.  Wherever it invokes [open], it is
    [open()] with the default multiplier, and both [close] and [disarm] have
    returned before, in one order or the other, and nothing has raised.  When
    [stage] finishes, the map the last event of the run shows [open]
    returning is the one it has assigned to the cache, and [describe] returns
    exactly that map.  And [stage] does get there: once [close] and [disarm]
    have both returned it invokes [open]; once [open] has returned a map it
    finishes with that map cached; and it fails only when one of its
    operations has raised. *)
Theorem stage_then_describe {AsyncStatus W : Type}
    (E : env (det_op AsyncStatus) (det_res AsyncStatus) W)
    (w : W) (det : StandardDetector) :
  let close := @data_close AsyncStatus in
  let disarm := @control_disarm AsyncStatus in
  let r := run E stage w det in
  (exists rest, trace r = Call close :: Call disarm :: rest)
  /\ (forall pre m post,
        trace r = pre ++ Call (@data_open AsyncStatus m) :: post ->
        m = 1
        /\ calls pre = [close; disarm]
        /\ (returns pre = [close; disarm] \/ returns pre = [disarm; close]))
  /\ (result r = Finished tt ->
      exists d,
        last (trace r) = Some (Return (@data_open AsyncStatus 1) d)
        /\ self r = set_describe d det
        /\ describe (self r) = Returned d)
  /\ (forall pre m post,
        trace r = pre ++ Call (@data_open AsyncStatus m) :: post ->
        throws pre = [])
  /\ (In close (returns (trace r)) -> In disarm (returns (trace r)) ->
      In (@data_open AsyncStatus 1) (calls (trace r)))
  /\ (In (@data_open AsyncStatus 1) (returns (trace r)) ->
      exists d, omap opened (trace r) = [d])
  /\ (forall d, omap opened (trace r) = [d] ->
      result r = Finished tt
      /\ _describe (self r) = d
      /\ describe (self r) = Returned d)
  /\ (throws (trace r) = [] -> result r = Finished tt).
Proof.
  intros close disarm r. subst close disarm r.
  stage_cases E w det;
    (split; [by eexists|]);
    (split; [intros pre m post H; locate H pre; cbn; auto|]);
    (split; [intros Hres; try discriminate Hres; eexists; by repeat split|]);
    (split; [intros pre m post H; locate H pre; reflexivity|]);
    (split; [cbn; intuition congruence|]);
    (split; [cbn; intros H;
             first [solve [exfalso; intuition discriminate] | by eexists]|]);
    (split; [cbn; intros d0 [= <-]; by repeat split|]);
    cbn; intros H; (discriminate H || reflexivity).
Qed.

(** C6. When the writer's [close] or the control's [disarm] raises during
    [stage], [stage] fails, and the exception it fails with is the first one
    raised in the run, raised by [close] or by [disarm].  Every exception of
    the run is theirs.  The operations [stage] has invoked are [close] and
    [disarm], once each, so [open] is never invoked and nothing is retried
    or rolled back; the cached description is what it was. *)
Theorem stage_failure_opens_nothing {AsyncStatus W : Type}
    (E : env (det_op AsyncStatus) (det_res AsyncStatus) W)
    (w : W) (det : StandardDetector) (o : det_op AsyncStatus) (e : exn) :
  let r := run E stage w det in
  o = data_close \/ o = control_disarm ->
  In (o, e) (throws (trace r)) ->
  (exists o1 e1,
      head (throws (trace r)) = Some (o1, e1)
      /\ (o1 = data_close \/ o1 = control_disarm)
      /\ result r = Failed e1)
  /\ Forall (fun oe => fst oe = data_close \/ fst oe = control_disarm)
            (throws (trace r))
  /\ calls (trace r) = [data_close; control_disarm]
  /\ List.filter is_open (calls (trace r)) = []
  /\ self r = det
  /\ describe (self r) = describe det.
Proof.
  intros r Ho Hin. subst r.
  stage_cases E w det; cbn in Hin;
    repeat (destruct Hin as [Hin|Hin]; [injection Hin as <- <-|]);
    try contradiction;
    try (by destruct Ho as [Ho|Ho]);
    (split; [do 2 eexists; split; [reflexivity|]; split; [auto|reflexivity]|]);
    (split; [repeat constructor; cbn; auto|]);
    by repeat split.
Qed.

(** C4, as the code has it.  [describe] never raises: before any [stage] it
    returns the empty mapping that [__init__] installed, and in every state
    it returns the cached mapping. *)
Theorem describe_before_stage (name : string) :
  describe (StandardDetector__init__ name) = Returned ∅
  /\ (forall (s : StandardDetector) (e : exn), describe s <> Raised e).
Proof. split; [reflexivity | by intros s e]. Qed.

(** C4, as the claim has it, fails: on a detector fresh from [__init__],
    [describe] returns a value and raises nothing. *)
Lemma describe_before_stage_does_not_raise :
  exists det : StandardDetector,
    det = StandardDetector__init__ "det"
    /\ describe det = Returned ∅
    /\ (forall e : exn, describe det <> Raised e).
Proof. eexists; split; [reflexivity|]. by split. Qed.

(** ** The claims about [DetectorTrigger] and [PilatusController] *)

Lemma getattr_In (cls : enum_class) (name : string) (m : member) :
  getattr cls name = Some m -> In m (map snd cls).
Proof.
  induction cls as [|[n c] cls IH]; cbn; [done|].
  destruct (String.eqb n name); [intros [= ->]; auto | auto].
Qed.

(** The member objects that the names of [DetectorTrigger] are bound to. *)
Lemma DetectorTrigger_getattr (name : string) (m : member) :
  getattr DetectorTrigger name = Some m ->
  m = internal \/ m = edge_trigger \/ m = constant_gate \/ m = variable_gate.
Proof.
  intros H. apply getattr_In in H. vm_compute in H.
  vm_compute. intuition congruence.
Qed.


(** C9. [get_deadtime] is a function of its argument alone that ignores it:
    for every exposure it returns the float [0.001], so any two calls agree.
    It is a plain [def]: it has no awaits, and no state to read or write. *)
Theorem get_deadtime_constant (exposure exposure' : float) :
  PilatusController.get_deadtime exposure = 0.001%float
  /\ PilatusController.get_deadtime exposure
     = PilatusController.get_deadtime exposure'.
Proof. split; reflexivity. Qed.

Section PilatusFacts.

Import PilatusController.

Context {TriggerMode ImageMode AsyncStatus W : Type}.
Context (TriggerMode_internal TriggerMode_ext_enable : TriggerMode).
Context (ImageMode_multiple : ImageMode).
Context (E : env (drv_op TriggerMode ImageMode)
                 (drv_res TriggerMode ImageMode AsyncStatus) W).

Local Abbreviation TRIGGER_MODE :=
  (TRIGGER_MODE TriggerMode_internal TriggerMode_ext_enable).
Local Abbreviation arm :=
  (arm (AsyncStatus := AsyncStatus)
       TriggerMode_internal TriggerMode_ext_enable ImageMode_multiple).

(** The three items of the display are stored under three keys. *)
Lemma TRIGGER_MODE_entries :
  TRIGGER_MODE !! key internal = Some TriggerMode_internal
  /\ TRIGGER_MODE !! key constant_gate = Some TriggerMode_ext_enable
  /\ TRIGGER_MODE !! key variable_gate = Some TriggerMode_ext_enable
  /\ TRIGGER_MODE !! key edge_trigger = None
  /\ size TRIGGER_MODE = 3%nat.
Proof.
  unfold PilatusController.TRIGGER_MODE.
  change (key variable_gate) with "variable_gate".
  change (key constant_gate) with "constant_gate".
  change (key internal) with "internal".
  change (key edge_trigger) with "edge_trigger".
  repeat split; by simplify_map_eq.
Qed.

(** The completions of gathered children hold no invocation. *)
Lemma calls_linger (n : nat) (os : list (drv_op TriggerMode ImageMode)) w :
  calls (linger E n os w).1.1 = [].
Proof.
  revert os w. induction n as [|n IH]; intros os w; cbn; [done|].
  destruct (lingers E w os); [|done].
  destruct (pick _ os) as [[o rest]|]; [|done].
  specialize (IH rest).
  destruct (answer E o w) as [[x|e] w1]; specialize (IH w1);
    by destruct (linger E n rest w1) as [[tr w2] running].
Qed.

Lemma calls_complete (n : nat) (os : list (drv_op TriggerMode ImageMode)) w :
  calls (complete E n os w).1.1.1 = [].
Proof.
  revert os w. induction n as [|n IH]; intros os w; cbn; [done|].
  destruct (pick _ os) as [[o rest]|]; [|done].
  destruct (answer E o w) as [[x|e] w1].
  - specialize (IH rest w1).
    by destruct (complete E n rest w1) as [[[tr err] w2] running].
  - pose proof (calls_linger n rest w1) as Hl.
    by destruct (linger E n rest w1) as [[tr w2] running].
Qed.

(** What [arm] invokes on the driver when the subscription succeeds. *)
Lemma arm_calls (mode : member) (v : TriggerMode) num exposure w :
  TRIGGER_MODE !! key mode = Some v ->
  let sets := [ trigger_mode_set v; num_images_set num;
                image_mode_set ImageMode_multiple ] in
  calls (trace (run E (arm mode num exposure) w tt)) = sets
  \/ calls (trace (run E (arm mode num exposure) w tt))
     = sets ++ [arm_and_trigger_detector_and_check_status_pv].
Proof.
  intros Hv sets. unfold PilatusController.arm. rewrite Hv. cbn [run length].
  pose proof (calls_complete 3 sets w) as Hc. fold sets.
  destruct (complete E 3 sets w) as [[[tr [e|]] w1] running];
    cbn [fst] in Hc.
  - left. cbn [trace]. by rewrite calls_app, Hc, calls_map_Call, app_nil_r.
  - right.
    destruct (answer E arm_and_trigger_detector_and_check_status_pv w1)
      as [[st|e] w2];
      cbn [trace after]; by rewrite !calls_app, Hc, calls_map_Call.
Qed.

(** [arm] in a mode that the dict does not hold. *)
Lemma arm_missing (mode : member) num exposure w :
  TRIGGER_MODE !! key mode = None ->
  run E (arm mode num exposure) w tt
  = End [] (Failed (KeyError (key mode))) w tt [].
Proof. intros Hv. unfold PilatusController.arm. by rewrite Hv. Qed.

End PilatusFacts.



(** ** The statements at work on the simulated collaborators *)

(** The two children of the [gather] in [stage] may complete in either
    order. *)
Example stage_close_completes_first :
  returns (trace (run (Sim.environment Sim.no_faults) stage Sim.start Sim.det))
  = [data_close; control_disarm; data_open 1].
Proof. reflexivity. Qed.

Example stage_disarm_completes_first :
  returns (trace (run (Sim.environment (Sim.Faults false false false false true))
                      stage Sim.start Sim.det))
  = [control_disarm; data_close; data_open 1].
Proof. reflexivity. Qed.

(** When [close] raises before [disarm] has completed, [disarm] is left
    running: it is neither awaited nor cancelled. *)
Example stage_close_raises_first :
  pending (run (Sim.environment (Sim.Faults true false false false false))
               stage Sim.start Sim.det)
  = [control_disarm].
Proof. reflexivity. Qed.

(** When both raise and [disarm] completes before the body is resumed, both
    exceptions occur during [stage], which fails with the first. *)
Example stage_both_raise :
  let r := run (Sim.lingering (Sim.Faults true true false false false))
               stage Sim.start Sim.det in
  throws (trace r)
  = [ (data_close, RuntimeError "close");
      (control_disarm, RuntimeError "disarm") ]
  /\ result r = Failed (RuntimeError "close")
  /\ pending r = [].
Proof. repeat split; reflexivity. Qed.

(** Stage, then trigger once: one more index is written and [describe]
    returns the map [open] gave. *)
Example stage_then_trigger_once :
  let staged := run (Sim.environment Sim.no_faults) stage Sim.start Sim.det in
  let triggered :=
    run (Sim.environment Sim.no_faults) trigger (world staged) (self staged) in
  result triggered = Finished tt
  /\ Sim.indices_written (world staged) = 0
  /\ Sim.indices_written (world triggered) = 1
  /\ describe (self triggered) = Returned Sim.description.
Proof. repeat split; reflexivity. Qed.

(** C5 at work: the frame never lands, [wait_for_index(1)] times out, and the
    simulated control is still armed when [trigger] has failed. *)
Lemma trigger_failure_leaves_armed_witness :
  In (data_wait_for_index 1, TimeoutError)
     (throws (trace (run (Sim.environment (Sim.Faults false false false true false))
                         trigger Sim.start Sim.det)))
  /\ result (run (Sim.environment (Sim.Faults false false false true false))
                 trigger Sim.start Sim.det) = Failed TimeoutError
  /\ Sim.armed (world (run (Sim.environment (Sim.Faults false false false true false))
                           trigger Sim.start Sim.det)) = true.
Proof.
  assert (Hin : In (data_wait_for_index 1, TimeoutError)
                  (throws (trace (run (Sim.environment
                                         (Sim.Faults false false false true false))
                                      trigger Sim.start Sim.det)))).
  { vm_compute. left. reflexivity. }
  split; [exact Hin|]. split; [|reflexivity].
  exact (proj1 (trigger_failure_leaves_armed
                  (Sim.environment (Sim.Faults false false false true false))
                  Sim.start Sim.det (data_wait_for_index 1) TimeoutError
                  (or_intror (ex_intro _ 1 eq_refl)) Hin)).
Defined.

(** C6 at work: both [close] and [disarm] raise, [disarm] last; [stage]
    fails with the exception of [close]. *)
Lemma stage_failure_opens_nothing_witness :
  In (control_disarm, RuntimeError "disarm")
     (throws (trace (run (Sim.lingering (Sim.Faults true true false false false))
                         stage Sim.start Sim.det)))
  /\ result (run (Sim.lingering (Sim.Faults true true false false false))
                 stage Sim.start Sim.det)
     = Failed (RuntimeError "close")
  /\ calls (trace (run (Sim.lingering (Sim.Faults true true false false false))
                       stage Sim.start Sim.det))
     = [data_close; control_disarm]
  /\ describe (self (run (Sim.lingering (Sim.Faults true true false false false))
                         stage Sim.start Sim.det))
     = Returned ∅.
Proof.
  assert (Hin : In (control_disarm, RuntimeError "disarm")
                  (throws (trace (run (Sim.lingering
                                         (Sim.Faults true true false false false))
                                      stage Sim.start Sim.det)))).
  { vm_compute. right. left. reflexivity. }
  split; [exact Hin|].
  destruct (stage_failure_opens_nothing
              (Sim.lingering (Sim.Faults true true false false false))
              Sim.start Sim.det control_disarm (RuntimeError "disarm")
              (or_intror eq_refl) Hin)
    as ((o1 & e1 & Hhead & _ & Hres) & _ & Hcalls & _ & _ & Hdescribe).
  split.
  { rewrite Hres. vm_compute in Hhead. by injection Hhead as _ <-. }
  split; [exact Hcalls|]. rewrite Hdescribe. reflexivity.
Defined.

(** C8 at work: the simulated writer's [close] is idempotent, and three
    [unstage] in a row end where one ends. *)
Lemma unstage_idempotent_witness :
  (forall w u w1,
      answer (Sim.environment Sim.no_faults) data_close w = (Returned u, w1) ->
      answer (Sim.environment Sim.no_faults) data_close w1 = (Returned tt, w1))
  /\ world (run (Sim.environment Sim.no_faults) (repeat_await 3 unstage)
                Sim.start Sim.det)
     = world (run (Sim.environment Sim.no_faults) unstage Sim.start Sim.det)
  /\ result (run (Sim.environment Sim.no_faults) (repeat_await 3 unstage)
                 Sim.start Sim.det)
     = Finished tt.
Proof.
  assert (Hidem : forall w u w1,
             answer (Sim.environment Sim.no_faults) data_close w
             = (Returned u, w1) ->
             answer (Sim.environment Sim.no_faults) data_close w1
             = (Returned tt, w1)).
  { intros w u w1 H. simpl in H. injection H as _ <-. reflexivity. }
  split; [exact Hidem|].
  destruct (unstage_idempotent (Sim.environment Sim.no_faults) Hidem
              2 Sim.start Sim.det) as (Hres & Hworld & _).
  split; [exact Hworld|]. rewrite Hres. reflexivity.
Defined.

(** * Further properties *)

(** ** Sessions of calls on one [StandardDetector] *)

Section SessionFacts.

Context {AsyncStatus W : Type}.
Context (E : env (det_op AsyncStatus) (det_res AsyncStatus) W).

Implicit Types (w : W) (det : StandardDetector) (c : call) (cs : list call).

Local Abbreviation count p l := (length (List.filter p l)).

(** The operations one call invokes. *)
Lemma invoke_calls c w det :
  let cl := calls (trace (run E (invoke c) w det)) in
  match c with
  | call_stage =>
      cl = [data_close; control_disarm]
      \/ cl = [data_close; control_disarm; data_open 1]
  | call_trigger =>
      cl = [data_get_indices_written]
      \/ cl = [data_get_indices_written; control_arm internal 1 None]
      \/ exists st,
          cl = [data_get_indices_written; control_arm internal 1 None;
                await_status st]
          \/ exists n,
              cl = [data_get_indices_written; control_arm internal 1 None;
                    await_status st; data_wait_for_index n]
  | call_read => cl = []
  | call_unstage => cl = [data_close]
  end.
Proof.
  destruct c; cbn [invoke].
  - stage_cases E w det; by (left + right).
  - rewrite run_trigger.
    destruct (answer E data_get_indices_written w) as [[n|e] w1];
      [|by left].
    right.
    destruct (answer E (control_arm internal 1 None) w1) as [[st|e] w2];
      [|by left].
    right. exists st.
    destruct (answer E (@await_status AsyncStatus st) w2) as [[u|e] w3];
      [|by left].
    right. exists (n + 1).
    by destruct (answer E (data_wait_for_index (n + 1)) w3) as [[v|e] w4].
  - reflexivity.
  - rewrite run_unstage.
    by destruct (answer E data_close w) as [[u|e] w1].
Qed.

(** After one call the cache holds the map of the last [open] that returned
    during the call, and what it held before when there is none. *)
Lemma invoke_describe c w det :
  _describe (self (run E (invoke c) w det)) =
  default (_describe det)
          (last (omap opened (trace (run E (invoke c) w det)))).
Proof.
  destruct c; cbn [invoke].
  - stage_cases E w det; reflexivity.
  - rewrite run_trigger.
    destruct (answer E data_get_indices_written w) as [[n|e] w1]; [|done].
    destruct (answer E (control_arm internal 1 None) w1) as [[st|e] w2];
      [|done].
    destruct (answer E (@await_status AsyncStatus st) w2) as [[u|e] w3];
      [|done].
    by destruct (answer E (data_wait_for_index (n + 1)) w3) as [[v|e] w4].
  - reflexivity.
  - rewrite run_unstage.
    by destruct (answer E data_close w) as [[u|e] w1].
Qed.

(** What one call adds to the account of a session. *)
Lemma invoke_accounting c w det :
  let cl := calls (trace (run E (invoke c) w det)) in
  count is_disarm cl = Nat.b2n (is_stage c)
  /\ count is_close cl = (Nat.b2n (is_stage c) + Nat.b2n (is_unstage c))%nat
  /\ (count is_arm cl <= Nat.b2n (is_trigger c))%nat
  /\ (count is_open cl <= Nat.b2n (is_stage c))%nat
  /\ Forall (fun o => is_arm o = true -> o = control_arm internal 1 None) cl
  /\ Forall (fun o => is_open o = true -> o = data_open 1) cl.
Proof.
  pose proof (invoke_calls c w det) as Hcl. cbn zeta in *.
  destruct c;
    [ destruct Hcl as [-> | ->]
    | destruct Hcl as [-> | [-> | [st [-> | [n ->]]]]]
    | rewrite Hcl
    | rewrite Hcl ];
    cbn; repeat split; try lia;
    repeat match goal with |- Forall _ _ => constructor end;
    cbn; intros; (discriminate || reflexivity).
Qed.

Lemma count_cons {A} (p : A -> bool) (x : A) (l : list A) :
  count p (x :: l) = (Nat.b2n (p x) + count p l)%nat.
Proof. cbn. by destruct (p x). Qed.

End SessionFacts.

(** X1. However a caller mixes [stage], [trigger], [read] and [unstage], and
    whichever of these calls fail, [describe] afterwards returns the map of
    the most recent writer [open] that returned, and the map it returned
    before the session when no [open] has returned since.  So [trigger],
    [read] and [unstage] never touch the cache, [unstage] does not clear it,
    and a [stage] that fails before its [open] returns leaves the map of the
    earlier [stage] in place. *)
Theorem describe_is_last_open {AsyncStatus W : Type}
    (E : env (det_op AsyncStatus) (det_res AsyncStatus) W)
    (cs : list call) (w : W) (det : StandardDetector) :
  describe (detector_after (session E cs w det)) =
  Returned (default (_describe det)
                    (last (omap opened (observed (session E cs w det))))).
Proof.
  unfold describe. f_equal. revert w det.
  induction cs as [|c cs IH]; intros w det; cbn [session]; [reflexivity|].
  cbn [detector_after observed].
  rewrite IH, omap_app, last_app, invoke_describe.
  by destruct (last (omap opened (observed (session E cs _ _)))).
Qed.

(** X2. Over a whole session, whatever fails: the control's [disarm] is
    invoked once per [stage] and by nothing else (so [unstage] never
    disarms); the writer's [close] is invoked once per [stage] and once per
    [unstage]; [arm] is invoked at most once per [trigger] and always as
    [arm(internal, 1)]; [open] is invoked at most once per [stage] and always
    with multiplier 1. *)
Theorem session_accounting {AsyncStatus W : Type}
    (E : env (det_op AsyncStatus) (det_res AsyncStatus) W)
    (cs : list call) (w : W) (det : StandardDetector) :
  let cl := calls (observed (session E cs w det)) in
  let count {A} (p : A -> bool) (l : list A) := length (List.filter p l) in
  count is_disarm cl = count is_stage cs
  /\ count is_close cl = (count is_stage cs + count is_unstage cs)%nat
  /\ (count is_arm cl <= count is_trigger cs)%nat
  /\ (count is_open cl <= count is_stage cs)%nat
  /\ Forall (fun o => is_arm o = true -> o = control_arm internal 1 None) cl
  /\ Forall (fun o => is_open o = true -> o = data_open 1) cl
  /\ length (results (session E cs w det)) = length cs.
Proof.
  intros cl count. subst cl count. revert w det.
  induction cs as [|c cs IH]; intros w det; cbn [session].
  { cbn. repeat split; auto. }
  cbn [observed results].
  destruct (IH (world (run E (invoke c) w det))
               (self (run E (invoke c) w det)))
    as (Hd & Hc & Ha & Ho & Farm & Fopen & Hlen).
  destruct (invoke_accounting E c w det) as (Hd1 & Hc1 & Ha1 & Ho1 & F1 & F2).
  rewrite calls_app, !List.filter_app, !length_app, !Forall_app, !count_cons.
  cbn [length]. repeat split; auto; lia.
Qed.

(** X3. [stage] returns with at most one of its two gathered sub-operations
    still running, and only when the other one raised before any of them had
    returned: the one left running was invoked, is neither awaited nor
    cancelled, and has not completed.  When [stage] finishes, or fails
    because the second sub-operation or [open] raised, nothing is left
    running; [trigger] and [unstage] never leave anything running. *)
Theorem stage_leaves_running {AsyncStatus W : Type}
    (E : env (det_op AsyncStatus) (det_res AsyncStatus) W)
    (w : W) (det : StandardDetector) :
  let r := run E stage w det in
  (pending r = []
   \/ (exists e, pending r = [control_disarm]
                 /\ trace r = [Call data_close; Call control_disarm;
                               Throw data_close e]
                 /\ result r = Failed e)
   \/ (exists e, pending r = [data_close]
                 /\ trace r = [Call data_close; Call control_disarm;
                               Throw control_disarm e]
                 /\ result r = Failed e))
  /\ (returns (trace r) <> [] -> pending r = [])
  /\ (result r = Finished tt -> pending r = [])
  /\ pending (run E trigger w det) = []
  /\ pending (run E unstage w det) = [].
Proof.
  intros r. subst r. split; [|split; [|split; [|split]]].
  - stage_cases E w det; first [by left | right; (left + right); by eexists].
  - stage_cases E w det; cbn; first [done | intros H; by destruct H].
  - stage_cases E w det; first [done | intros [=]].
  - rewrite run_trigger.
    destruct (answer E data_get_indices_written w) as [[n|e] w1]; [|done].
    destruct (answer E (control_arm internal 1 None) w1) as [[st|e] w2];
      [|done].
    destruct (answer E (@await_status AsyncStatus st) w2) as [[u|e] w3];
      [|done].
    by destruct (answer E (data_wait_for_index (n + 1)) w3) as [[v|e] w4].
  - rewrite run_unstage. by destruct (answer E data_close w) as [[u|e] w1].
Qed.

(** ** [asyncio.gather] in general *)

Section GatherFacts.

Context {op : Type} {res : op -> Type} {Self W : Type}.
Context (E : env op res W).

Implicit Types (w : W) (os : list op) (tr : list (event op res)).

Lemma pick_Some i os o rest :
  pick i os = Some (o, rest) -> os ≡ₚ o :: rest.
Proof.
  unfold pick. destruct (os !! i) as [o'|] eqn:Hi.
  - intros [= <- <-]. by apply delete_Permutation.
  - destruct os as [|o' os']; [done|]. by intros [= <- <-].
Qed.

Lemma pick_None i os : pick i os = None -> os = [].
Proof.
  unfold pick. destruct (os !! i); [done|]. by destruct os.
Qed.

(** What the children still running do once the [gather] is settled: no
    invocation; those that returned, those that raised and those left
    running are the children. *)
Lemma linger_outcome (n : nat) os w tr w' running :
  length os = n ->
  linger E n os w = (tr, w', running) ->
  calls tr = []
  /\ returns tr ++ map fst (throws tr) ++ running ≡ₚ os.
Proof.
  revert os w tr w' running.
  induction n as [|n IH]; intros os w tr w' running Hlen; cbn [linger].
  { by intros [= <- <- <-]. }
  destruct (lingers E w os); [|by intros [= <- <- <-]].
  destruct (pick (next_done E w os) os) as [[o rest]|] eqn:Hp.
  2: { apply pick_None in Hp. subst os. by intros [= <- <- <-]. }
  pose proof (pick_Some _ _ _ _ Hp) as Hperm.
  assert (Hrest : length rest = n).
  { apply Permutation_length in Hperm. cbn in Hperm. lia. }
  destruct (answer E o w) as [[x|e] w1];
    destruct (linger E n rest w1) as [[tr1 w2] running1] eqn:Hl;
    intros [= <- <- <-];
    destruct (IH _ _ _ _ _ Hrest Hl) as (Hcalls & Hp');
    (split; [exact Hcalls|]); cbn; rewrite Hperm.
  - by constructor.
  - rewrite <- Permutation_middle. by constructor.
Qed.

(** The completions of [n] gathered children: no invocation among them;
    either all children returned, in some order, or the first exception of
    the trace is the exception of the [gather], and the children that
    returned, those that raised and those left running are the children. *)
Lemma complete_outcome (n : nat) os w tr err w' running :
  length os = n ->
  complete E n os w = (tr, err, w', running) ->
  calls tr = []
  /\ match err with
     | None => running = [] /\ throws tr = [] /\ returns tr ≡ₚ os
     | Some e =>
         exists o, head (throws tr) = Some (o, e)
                   /\ returns tr ++ map fst (throws tr) ++ running ≡ₚ os
     end.
Proof.
  revert os w tr err w' running.
  induction n as [|n IH]; intros os w tr err w' running Hlen; cbn [complete].
  { destruct os; [|done]. by intros [= <- <- <- <-]. }
  destruct (pick (next_done E w os) os) as [[o rest]|] eqn:Hp.
  2: { apply pick_None in Hp. by subst os. }
  pose proof (pick_Some _ _ _ _ Hp) as Hperm.
  assert (Hrest : length rest = n).
  { apply Permutation_length in Hperm. cbn in Hperm. lia. }
  destruct (answer E o w) as [[x|e] w1].
  - destruct (complete E n rest w1) as [[[tr1 err1] w2] running1] eqn:Hc.
    intros [= <- <- <- <-].
    destruct (IH _ _ _ _ _ _ Hrest Hc) as (Hcalls & Herr).
    split; [exact Hcalls|].
    destruct err1 as [e|].
    + destruct Herr as (o' & Ht & Hp').
      exists o'. split; [exact Ht|].
      cbn. rewrite Hperm. by constructor.
    + destruct Herr as (-> & Ht & Hp').
      split; [done|]. split; [exact Ht|].
      cbn. rewrite Hperm. by constructor.
  - destruct (linger E n rest w1) as [[tr1 w2] running1] eqn:Hl.
    intros [= <- <- <- <-].
    destruct (linger_outcome _ _ _ _ _ _ Hrest Hl) as (Hcalls & Hp').
    split; [exact Hcalls|].
    exists o. split; [done|].
    cbn. rewrite Hperm, <- Permutation_middle. by constructor.
Qed.

End GatherFacts.

(** ** [PilatusController.arm] from end to end *)

Section ArmFacts.

Import PilatusController.

Context {TriggerMode ImageMode AsyncStatus W : Type}.
Context (TriggerMode_internal TriggerMode_ext_enable : TriggerMode).
Context (ImageMode_multiple : ImageMode).
Context (E : env (drv_op TriggerMode ImageMode)
                 (drv_res TriggerMode ImageMode AsyncStatus) W).

Local Abbreviation TRIGGER_MODE :=
  (TRIGGER_MODE TriggerMode_internal TriggerMode_ext_enable).
Local Abbreviation arm :=
  (arm (AsyncStatus := AsyncStatus)
       TriggerMode_internal TriggerMode_ext_enable ImageMode_multiple).
Local Abbreviation start :=
  (@arm_and_trigger_detector_and_check_status_pv TriggerMode ImageMode).

(** The run of [arm] in a mode that the dict holds. *)
Lemma run_arm (mode : member) (v : TriggerMode) num exposure w :
  TRIGGER_MODE !! key mode = Some v ->
  let sets := [ trigger_mode_set v; num_images_set num;
                image_mode_set ImageMode_multiple ] in
  let r := run E (arm mode num exposure) w tt in
  exists tr,
    calls tr = []
    /\ ((exists o e,
           trace r = map Call sets ++ tr
           /\ head (throws tr) = Some (o, e)
           /\ returns tr ++ map fst (throws tr) ++ pending r ≡ₚ sets
           /\ result r = Failed e)
        \/ (returns tr ≡ₚ sets
            /\ throws tr = []
            /\ pending r = []
            /\ ((exists st,
                   trace r = map Call sets ++ tr
                             ++ [Call start; Return start st]
                   /\ result r = Finished st)
                \/ (exists e,
                      trace r = map Call sets ++ tr
                                ++ [Call start; Throw start e]
                      /\ result r = Failed e)))).
Proof.
  intros Hv sets r. subst r.
  unfold PilatusController.arm. rewrite Hv. fold sets. cbn [run].
  destruct (complete E (length sets) sets w) as [[[tr err] w1] running] eqn:Hc.
  destruct (complete_outcome E _ _ _ _ _ _ _ eq_refl Hc) as (Hcalls & Herr).
  exists tr. split; [exact Hcalls|].
  destruct err as [e|].
  - left. destruct Herr as (o & Ht & Hp). by exists o, e.
  - right. destruct Herr as (-> & Ht & Hp).
    destruct (answer E start w1) as [[st|e] w2]; cbn.
    + repeat split; auto. left. by exists st.
    + repeat split; auto. right. by exists e.
Qed.

(** What [arm] has asked of the driver, by the way it ended: the three
    writes, and the start of the acquisition when they all returned. *)
Lemma arm_asks (mode : member) (v : TriggerMode) num exposure w :
  TRIGGER_MODE !! key mode = Some v ->
  let sets := [ trigger_mode_set v; num_images_set num;
                image_mode_set ImageMode_multiple ] in
  (calls (trace (run E (arm mode num exposure) w tt)) = sets
   /\ exists e, result (run E (arm mode num exposure) w tt) = Failed e)
  \/ calls (trace (run E (arm mode num exposure) w tt)) = sets ++ [start].
Proof.
  intros Hv sets.
  destruct (run_arm mode v num exposure w Hv)
    as (tr & Hcalls & [(o & e & -> & _ & _ & Hres)
                      | (_ & _ & _ & [(st & -> & _) | (e & -> & _)])]).
  - left. rewrite calls_app, Hcalls, calls_map_Call, app_nil_r. eauto.
  - right. by rewrite !calls_app, Hcalls, calls_map_Call.
  - right. by rewrite !calls_app, Hcalls, calls_map_Call.
Qed.

End ArmFacts.





(** ** [StandardDetector.collect_asset_docs] *)

Section CollectFacts.

Import Collect.

Context {Asset Iterator W : Type}.
Context (E : env (gen_op Asset Iterator) (gen_res Asset Iterator) W).

Implicit Types (w : W) (det : StandardDetector) (it : Iterator)
               (docs : list Asset).

Local Abbreviation rounds it docs := (concat (map (round it) docs)).
Local Abbreviation next it := (@anext Asset Iterator it).
Local Abbreviation give doc := (@yield Asset Iterator doc).

Lemma yielded_app (tr1 tr2 : list (event (gen_op Asset Iterator)
                                         (gen_res Asset Iterator))) :
  yielded (tr1 ++ tr2) = yielded tr1 ++ yielded tr2.
Proof. apply omap_app. Qed.

Lemma yielded_rounds it docs : yielded (rounds it docs) = docs.
Proof.
  induction docs as [|d docs IH]; [done|].
  cbn [map concat]. rewrite yielded_app, IH. done.
Qed.

(** The loop: some rounds, each delivering one document, and then one of
    four endings: the iterator is exhausted; the iterator raises; the
    consumer raises at a [yield]; or the bound on the rounds is hit. *)
Lemma run_forward_docs (fuel : nat) it w det :
  exists docs,
    (length docs <= fuel)%nat
    /\ self (run E (forward_docs fuel it) w det) = det
    /\ pending (run E (forward_docs fuel it) w det) = []
    /\ ((trace (run E (forward_docs fuel it) w det)
         = rounds it docs ++ [Call (next it); Return (next it) None]
         /\ result (run E (forward_docs fuel it) w det) = Finished (Some tt))
        \/ (exists e,
              trace (run E (forward_docs fuel it) w det)
              = rounds it docs ++ [Call (next it); Throw (next it) e]
              /\ result (run E (forward_docs fuel it) w det) = Failed e)
        \/ (exists d e,
              trace (run E (forward_docs fuel it) w det)
              = rounds it docs
                ++ [Call (next it); Return (next it) (Some d);
                    Call (give d); Throw (give d) e]
              /\ result (run E (forward_docs fuel it) w det) = Failed e
              /\ (length docs < fuel)%nat)
        \/ (trace (run E (forward_docs fuel it) w det) = rounds it docs
            /\ result (run E (forward_docs fuel it) w det) = Finished None
            /\ length docs = fuel)).
Proof.
  revert w. induction fuel as [|fuel IH]; intros w; cbn [forward_docs run].
  { exists []. repeat split; auto. right. right. right. done. }
  destruct (answer E (next it) w) as [[[d|]|e] w1]; cbn [run].
  - destruct (answer E (give d) w1) as [[u|e] w2].
    + destruct (IH w2) as (docs & Hlen & Hself & Hpend & Hcases).
      exists (d :: docs). cbn [length map concat trace result self pending after].
      split; [lia|]. split; [exact Hself|]. split; [exact Hpend|].
      destruct u.
      destruct Hcases as [[-> ->] | [(e & -> & ->) | [(d' & e & -> & -> & Hlt)
                                                     | (-> & -> & <-)]]].
      * left. done.
      * right. left. by exists e.
      * right. right. left. exists d', e. repeat split; auto. lia.
      * right. right. right. done.
    + exists []. cbn. split; [lia|]. repeat split; auto.
      right. right. left. exists d, e. repeat split; auto. lia.
  - exists []. cbn. split; [lia|]. repeat split; auto.
  - exists []. cbn. split; [lia|]. repeat split; auto.
    right. left. by exists e.
Qed.

End CollectFacts.

(** X6. [collect_asset_docs] asks the writer for [indices_written] once,
    creates the stream with [collect_stream_docs(indices_written)] passing
    exactly that count, and then forwards the stream lazily: each document
    is handed to the consumer before the next one is requested, so the
    documents yielded are the documents the stream delivered, in order and
    without loss or repetition.  It ends when the stream ends, fails with the
    exception of the writer, the stream or the consumer without yielding
    anything further, and never assigns an attribute of the detector.  A run
    cut by the bound on the rounds has forwarded that many documents. *)
Theorem collect_asset_docs_forwards {Asset Iterator W : Type}
    (E : env (Collect.gen_op Asset Iterator) (Collect.gen_res Asset Iterator) W)
    (fuel : nat) (w : W) (det : StandardDetector) :
  let get := @Collect.writer_get_indices_written Asset Iterator in
  let collect := @Collect.writer_collect_stream_docs Asset Iterator in
  let next := @Collect.anext Asset Iterator in
  let give := @Collect.yield Asset Iterator in
  let r := run E (Collect.collect_asset_docs fuel) w det in
  self r = det
  /\ ((exists e,
         trace r = [Call get; Throw get e]
         /\ result r = Failed e /\ Collect.yielded (trace r) = [])
      \/ (exists (n : Z) e,
            trace r = [Call get; Return get n;
                       Call (collect n); Throw (collect n) e]
            /\ result r = Failed e /\ Collect.yielded (trace r) = [])
      \/ (exists (n : Z) (it : Iterator) (docs : list Asset),
            (length docs <= fuel)%nat
            /\ Collect.yielded (trace r) = docs
            /\ ((trace r = [Call get; Return get n;
                            Call (collect n); Return (collect n) it]
                           ++ concat (map (Collect.round it) docs)
                           ++ [Call (next it); Return (next it) None]
                 /\ result r = Finished (Some tt))
                \/ (exists e,
                      trace r = [Call get; Return get n;
                                 Call (collect n); Return (collect n) it]
                                ++ concat (map (Collect.round it) docs)
                                ++ [Call (next it); Throw (next it) e]
                      /\ result r = Failed e)
                \/ (trace r = [Call get; Return get n;
                               Call (collect n); Return (collect n) it]
                              ++ concat (map (Collect.round it) docs)
                    /\ result r = Finished None
                    /\ length docs = fuel)))
      \/ (exists (n : Z) (it : Iterator) (docs : list Asset) (d : Asset) e,
            (length docs < fuel)%nat
            /\ Collect.yielded (trace r) = docs ++ [d]
            /\ trace r = [Call get; Return get n;
                          Call (collect n); Return (collect n) it]
                         ++ concat (map (Collect.round it) docs)
                         ++ [Call (next it); Return (next it) (Some d);
                             Call (give d); Throw (give d) e]
            /\ result r = Failed e)).
Proof.
  intros get collect next give r. subst get collect next give r.
  unfold Collect.collect_asset_docs. cbn [run].
  destruct (answer E Collect.writer_get_indices_written w) as [[n|e] w1].
  2: { split; [done|]. left. by exists e. }
  destruct (answer E (Collect.writer_collect_stream_docs n) w1)
    as [[it|e] w2].
  2: { split; [done|]. right. left. by exists n, e. }
  destruct (run_forward_docs E fuel it w2 det)
    as (docs & Hlen & Hself & _ & Hcases).
  cbn [after self trace result].
  split; [exact Hself|]. right. right.
  destruct Hcases as [[Htr Hres] | [(e & Htr & Hres)
                                   | [(d & e & Htr & Hres & Hlt)
                                     | (Htr & Hres & Hfuel)]]];
    rewrite Htr, Hres.
  - left. exists n, it, docs. split; [exact Hlen|]. split.
    + rewrite !yielded_app, yielded_rounds. cbn. by rewrite app_nil_r.
    + left. done.
  - left. exists n, it, docs. split; [exact Hlen|]. split.
    + rewrite !yielded_app, yielded_rounds. cbn. by rewrite app_nil_r.
    + right. left. by exists e.
  - right. exists n, it, docs, d, e.
    split; [exact Hlt|]. split; [|done].
    rewrite !yielded_app, yielded_rounds. done.
  - left. exists n, it, docs. split; [exact Hlen|]. split.
    + rewrite !yielded_app, yielded_rounds. done.
    + right. right. done.
Qed.

(** The generator on a stream of two documents. *)
Example collect_two_docs :
  let r := run SimDocs.environment (Collect.collect_asset_docs 5)
               ["resource"; "datum"] Sim.det in
  Collect.yielded (trace r) = ["resource"; "datum"]
  /\ result r = Finished (Some tt)
  /\ calls (trace r)
     = [ Collect.writer_get_indices_written;
         Collect.writer_collect_stream_docs 2;
         Collect.anext tt; Collect.yield "resource";
         Collect.anext tt; Collect.yield "datum";
         Collect.anext tt ].
Proof. repeat split; reflexivity. Qed.

(** ** [StandardDetector.trigger] over a [PilatusController] *)


(** Stage and trigger once on the simulated Pilatus: the trigger finishes,
    and the driver, asked for the internal mode, is left in [Internal]. *)
Example trigger_on_simulated_pilatus :
  let E := with_pilatus_arm Sim.Internal Sim.ExtEnable tt Sim.driver
             (Sim.environment Sim.no_faults) in
  let staged := run E stage (Lab None [] Sim.start) Sim.det in
  let triggered := run E trigger (world staged) (self staged) in
  result staged = Finished tt
  /\ result triggered = Finished tt
  /\ driver_world (world triggered) = Some Sim.Internal
  /\ calls (arm_log (world triggered))
     = [ PilatusController.trigger_mode_set Sim.Internal;
         PilatusController.num_images_set 1;
         PilatusController.image_mode_set tt;
         PilatusController.arm_and_trigger_detector_and_check_status_pv ].
Proof. repeat split; reflexivity. Qed.
